(** * ShaderTypes.h: the structures shared by the Swift host and the Metal shaders

    The header [Sources/CSphereAnimationTypes/include/ShaderTypes.h] has no
    function: it is a list of struct declarations, one of them under
    [#ifdef __METAL_VERSION__], inside an include guard.  This development
    embeds

    - the values of the declared structs as records ([VertexIn],
      [VertexUniforms], [FragmentUniforms]);
    - the declarations themselves as data ([struct_decl]), in the order and
      with the type names of the header;
    - the preprocessor conditionals of the header as a function on the
      preprocessor state ([ShaderTypes_h]);
    - the object representation of the structs in bytes, for any ABI that
      gives the simd types a size and an alignment ([store], [load]). *)

From Stdlib Require Import ZArith Lia.
From stdpp Require Import base list strings gmap vector.
From coqutil Require Import Byte Word.LittleEndianList.

(** ** Scalars *)

(** A C [float] is kept as its IEEE-754 binary32 bit pattern.  The header does
    no arithmetic on floats: they are only stored and read back. *)
Definition float : Type := Z.

(** A C [int]: 32 bits, two's complement. *)
Definition int : Type := Z.

Bind Scope Z_scope with float int.

Definition float_ok (f : float) : Prop := (0 ≤ f < 2 ^ 32)%Z.
Definition int_ok (i : int) : Prop := (- 2 ^ 31 ≤ i < 2 ^ 31)%Z.

Definition INT_MIN : int := (- 2 ^ 31)%Z.
Definition INT_MAX : int := (2 ^ 31 - 1)%Z.

(** Conversion of an integer to [int]: the value modulo 2^32, read as signed. *)
Definition int_wrap (z : Z) : int := ((z + 2 ^ 31) `mod` 2 ^ 32 - 2 ^ 31)%Z.

(** ** The simd types of <simd/simd.h> *)

(** Modelled from the spec: <simd/simd.h> is the platform's header and is not
    part of the repository.  The spec gives a 3-vector three 32-bit floats, a
    4-vector four, and a 4x4 matrix sixteen; the matrix is kept as its four
    columns.  How many bytes a vector takes in memory, and how it is aligned,
    is left to the [ABI] below. *)
Definition simd_float2 : Type := vec float 2.
Definition simd_float3 : Type := vec float 3.
Definition simd_float4 : Type := vec float 4.
Record simd_float4x4 : Type := { columns : vec simd_float4 4 }.

(** ** The shared structures (Swift + Metal) *)

Record VertexIn : Type := {
  position : simd_float3;
  normal : simd_float3;
}.

Record VertexUniforms : Type := {
  modelMatrix : simd_float4x4;
  viewProjectionMatrix : simd_float4x4;
  cameraPosition : simd_float3;
  spherePosition : simd_float2;
  sphereScale : float;
}.

Record FragmentUniforms : Type := {
  colors : vec simd_float3 10;
  colorCount : int;
  time : float;
  lightPosition : simd_float3;
  colorCycleDuration : float;
  glowIntensity : float;
}.

(** [colors\[i\]] in C: defined for an index inside the array, undefined
    behaviour (here [None]) outside of it. *)
Definition colors_at (fu : FragmentUniforms) (i : Z) : option simd_float3 :=
  if decide (0 ≤ i)%Z then vec_to_list (colors fu) !! Z.to_nat i else None.

(** ** The declarations, as the header writes them *)

Inductive ctype : Type :=
  | Tfloat
  | Tint
  | Tsimd_float (lanes : nat)
  | Tsimd_float4x4
  | Tarray (elt : ctype) (len : nat).

Abbreviation Tsimd_float2 := (Tsimd_float 2).
Abbreviation Tsimd_float3 := (Tsimd_float 3).
Abbreviation Tsimd_float4 := (Tsimd_float 4).

(** A member declaration [type name;] or [type name \[\[attr\]\];]. *)
Record field : Type := Field {
  f_type : ctype;
  f_name : string;
  f_attr : option string;
}.

Record struct_decl : Type := Struct {
  s_name : string;
  s_fields : list field;
}.

Global Instance ctype_eq_dec : EqDecision ctype.
Proof. solve_decision. Defined.
Global Instance field_eq_dec : EqDecision field.
Proof. solve_decision. Defined.
Global Instance struct_decl_eq_dec : EqDecision struct_decl.
Proof. solve_decision. Defined.

Definition VertexIn_decl : struct_decl :=
  Struct "VertexIn"
    [ Field Tsimd_float3 "position" None;
      Field Tsimd_float3 "normal" None ].

Definition VertexUniforms_decl : struct_decl :=
  Struct "VertexUniforms"
    [ Field Tsimd_float4x4 "modelMatrix" None;
      Field Tsimd_float4x4 "viewProjectionMatrix" None;
      Field Tsimd_float3 "cameraPosition" None;
      Field Tsimd_float2 "spherePosition" None;
      Field Tfloat "sphereScale" None ].

Definition FragmentUniforms_decl : struct_decl :=
  Struct "FragmentUniforms"
    [ Field (Tarray Tsimd_float3 10) "colors" None;
      Field Tint "colorCount" None;
      Field Tfloat "time" None;
      Field Tsimd_float3 "lightPosition" None;
      Field Tfloat "colorCycleDuration" None;
      Field Tfloat "glowIntensity" None ].

(** Metal only: [simd_float4 position \[\[position\]\];] and three 3-vectors.
    It is written [struct VertexOut { ... };], the three above as typedefs of
    unnamed structs; the difference plays no part in what follows. *)
Definition VertexOut_decl : struct_decl :=
  Struct "VertexOut"
    [ Field Tsimd_float4 "position" (Some "position");
      Field Tsimd_float3 "worldPosition" None;
      Field Tsimd_float3 "worldNormal" None;
      Field Tsimd_float3 "viewDirection" None ].

(** ** The preprocessor *)

(** The state the header acts on: the macros defined so far and the structs
    declared so far in the translation unit.  Of the macros only the two names
    the header tests matter to it, and the structs are those declared by
    struct declarations such as the header's; what the platform headers
    define for themselves is not kept. *)
Record pp_state : Type := {
  macros : gset string;
  structs : list struct_decl;
}.

Definition defined (m : string) (st : pp_state) : bool :=
  bool_decide (m ∈ macros st).

Definition define (m : string) (st : pp_state) : pp_state :=
  {| macros := {[ m ]} ∪ macros st; structs := structs st |}.

Definition declare (d : struct_decl) (st : pp_state) : pp_state :=
  {| macros := macros st; structs := structs st ++ [d] |}.

(** [#include <simd/simd.h>]: the platform header is not part of the
    repository.  It brings the simd types, which are constructors of [ctype]
    here; it declares none of the structs of this header and its own macros
    are not tested by it, so on the part of the state kept here it does
    nothing.  No statement below is about what the platform header itself
    defines. *)
Definition simd_simd_h (st : pp_state) : pp_state := st.

(** The header, top to bottom. *)
Definition ShaderTypes_h (st : pp_state) : pp_state :=
  if defined "ShaderTypes_h" st then st                (* #ifndef ShaderTypes_h *)
  else
    let st := define "ShaderTypes_h" st in            (* #define ShaderTypes_h *)
    let st := simd_simd_h st in                       (* #include <simd/simd.h> *)
    let st := declare VertexIn_decl st in
    let st := declare VertexUniforms_decl st in
    let st := declare FragmentUniforms_decl st in
    if defined "__METAL_VERSION__" st                 (* #ifdef __METAL_VERSION__ *)
    then declare VertexOut_decl st
    else st.                                          (* #endif *)

(** A translation unit that includes the header, compiled with the macros
    [predefined] by the compiler and its command line.  The header only tests
    macros ([#ifndef], [#ifdef]); a macro named like one of its own
    identifiers would rewrite the declarations, which is not modelled:
    [predefined] is taken not to name them. *)
Definition translation_unit (predefined : gset string) : list struct_decl :=
  structs (ShaderTypes_h {| macros := predefined; structs := [] |}).

Definition lookup_struct (name : string) (tu : list struct_decl) : option struct_decl :=
  snd <$> list_find (λ d, s_name d = name) tu.

(** ** What the spec calls the types *)

Inductive shape : Type :=
  | float_scalar
  | integer
  | float_vector (n : nat)
  | float_matrix (rows cols : nat)
  | fixed_array (len : nat) (elt : shape).

Fixpoint shape_of (t : ctype) : shape :=
  match t with
  | Tfloat => float_scalar
  | Tint => integer
  | Tsimd_float n => float_vector n
  | Tsimd_float4x4 => float_matrix 4 4
  | Tarray t' n => fixed_array n (shape_of t')
  end.

Definition members (d : struct_decl) : list (string * shape) :=
  (λ f, (f_name f, shape_of (f_type f))) <$> s_fields d.

(** ** The ABI and the layout of the declared types *)

(** What the compiler fixes and the header does not: the storage size and the
    alignment, in bytes, of a float vector of [n] lanes.  [float] and [int]
    take four bytes, aligned on four. *)
Record ABI : Type := {
  simd_size : nat → nat;
  simd_align : nat → nat;
}.

(** A vector has room for its lanes. *)
Definition abi_ok (abi : ABI) : Prop := ∀ n, 4 * n ≤ simd_size abi n.

(** Vectors take their lanes and nothing more, aligned as a float. *)
Definition abi_packed : ABI := {| simd_size n := 4 * n; simd_align n := 4 |}.

(** Vectors are rounded up to a power of two of lanes and aligned on their
    size: a 3-vector takes the room of a 4-vector.  This is the layout the
    platform gives its simd types, in C and Swift as in Metal: 8 bytes for
    [simd_float2], 16 for [simd_float3] and for [simd_float4]. *)
Definition abi_padded : ABI :=
  let size n := match n with 3 => 16 | _ => 4 * n end in
  {| simd_size := size; simd_align := size |}.

(** Bytes to skip from offset [off] to the next multiple of [a]. *)
Definition padding (off a : nat) : nat := (a - off `mod` a) `mod` a.

Definition align_up (off a : nat) : nat := off + padding off a.

Section Layout.
Variable abi : ABI.

Fixpoint sizeof (t : ctype) : nat :=
  match t with
  | Tfloat | Tint => 4
  | Tsimd_float n => simd_size abi n
  | Tsimd_float4x4 => 4 * simd_size abi 4
  | Tarray t' n => n * sizeof t'
  end.

Fixpoint alignof (t : ctype) : nat :=
  match t with
  | Tfloat | Tint => 4
  | Tsimd_float n => simd_align abi n
  | Tsimd_float4x4 => simd_align abi 4
  | Tarray t' _ => alignof t'
  end.

(** Members are laid out in declaration order, each at the next offset that
    its alignment allows. *)
Fixpoint field_offsets (off : nat) (fs : list field) : list nat :=
  match fs with
  | [] => []
  | f :: fs' =>
      let o := align_up off (alignof (f_type f)) in
      o :: field_offsets (o + sizeof (f_type f)) fs'
  end.

(** The offset past the last member. *)
Fixpoint fields_end (off : nat) (fs : list field) : nat :=
  match fs with
  | [] => off
  | f :: fs' =>
      fields_end (align_up off (alignof (f_type f)) + sizeof (f_type f)) fs'
  end.

Definition struct_align (fs : list field) : nat :=
  foldr (λ f a, alignof (f_type f) `max` a) 1 fs.

Definition sizeof_struct (d : struct_decl) : nat :=
  align_up (fields_end 0 (s_fields d)) (struct_align (s_fields d)).

Definition offsetof (d : struct_decl) (name : string) : option nat :=
  '(i, _) ← list_find (λ f, f_name f = name) (s_fields d);
  field_offsets 0 (s_fields d) !! i.
End Layout.

(** ** Values of the declared types *)

Fixpoint value (t : ctype) : Type :=
  match t with
  | Tfloat => float
  | Tint => int
  | Tsimd_float n => vec float n
  | Tsimd_float4x4 => simd_float4x4
  | Tarray t' n => vec (value t') n
  end.

(** The members of a struct, in declaration order. *)
Fixpoint fields_value (fs : list field) : Type :=
  match fs with
  | [] => unit
  | f :: fs' => value (f_type f) * fields_value fs'
  end.

(** The scalars of a value are in the range of their C type. *)
Fixpoint value_ok (t : ctype) : value t → Prop :=
  match t with
  | Tfloat => float_ok
  | Tint => int_ok
  | Tsimd_float n => λ v, Forall float_ok (vec_to_list v)
  | Tsimd_float4x4 =>
      λ m, Forall (λ c : simd_float4, Forall float_ok (vec_to_list c))
             (vec_to_list (columns m))
  | Tarray t' n => λ v, Forall (value_ok t') (vec_to_list v)
  end.

Fixpoint fields_ok (fs : list field) : fields_value fs → Prop :=
  match fs with
  | [] => λ _, True
  | f :: fs' => λ v, value_ok (f_type f) v.1 ∧ fields_ok fs' v.2
  end.

(** The records and the member lists of their declarations. *)
Definition VertexIn_fields (v : VertexIn) : fields_value (s_fields VertexIn_decl) :=
  (position v, (normal v, ())).

Definition VertexIn_of_fields (g : fields_value (s_fields VertexIn_decl)) : VertexIn :=
  let '(p, (n, _)) := g in {| position := p; normal := n |}.

Definition VertexUniforms_fields (u : VertexUniforms)
    : fields_value (s_fields VertexUniforms_decl) :=
  (modelMatrix u, (viewProjectionMatrix u, (cameraPosition u,
    (spherePosition u, (sphereScale u, ()))))).

Definition VertexUniforms_of_fields (g : fields_value (s_fields VertexUniforms_decl))
    : VertexUniforms :=
  let '(m, (vp, (c, (p, (s, _))))) := g in
  {| modelMatrix := m; viewProjectionMatrix := vp; cameraPosition := c;
     spherePosition := p; sphereScale := s |}.

Definition FragmentUniforms_fields (u : FragmentUniforms)
    : fields_value (s_fields FragmentUniforms_decl) :=
  (colors u, (colorCount u, (time u, (lightPosition u,
    (colorCycleDuration u, (glowIntensity u, ())))))).

Definition FragmentUniforms_of_fields (g : fields_value (s_fields FragmentUniforms_decl))
    : FragmentUniforms :=
  let '(cs, (n, (t, (l, (d, (gl, _)))))) := g in
  {| colors := cs; colorCount := n; time := t; lightPosition := l;
     colorCycleDuration := d; glowIntensity := gl |}.

Definition VertexIn_ok (v : VertexIn) : Prop :=
  fields_ok (s_fields VertexIn_decl) (VertexIn_fields v).
Definition VertexUniforms_ok (u : VertexUniforms) : Prop :=
  fields_ok (s_fields VertexUniforms_decl) (VertexUniforms_fields u).
Definition FragmentUniforms_ok (u : FragmentUniforms) : Prop :=
  fields_ok (s_fields FragmentUniforms_decl) (FragmentUniforms_fields u).

(** ** The object representation *)

(** A 32-bit scalar is four bytes, least significant first. *)
Definition store_float (f : float) : list byte := le_split 4 f.
Definition store_int (i : int) : list byte := le_split 4 i.

Definition load_float (bs : list byte) : option (float * list byte) :=
  if decide (4 ≤ length bs) then Some (le_combine (take 4 bs), drop 4 bs) else None.

Definition load_int (bs : list byte) : option (int * list byte) :=
  if decide (4 ≤ length bs)
  then Some (int_wrap (le_combine (take 4 bs)), drop 4 bs) else None.

Definition skip (n : nat) (bs : list byte) : option (list byte) :=
  if decide (n ≤ length bs) then Some (drop n bs) else None.

(** [n] elements, one after the other. *)
Definition store_vec {A n} (st : A → list byte) (v : vec A n) : list byte :=
  concat (st <$> vec_to_list v).

Fixpoint load_vec {A} (ld : list byte → option (A * list byte)) (n : nat)
    (bs : list byte) : option (vec A n * list byte) :=
  match n with
  | 0 => Some ([#], bs)
  | S n' =>
      '(x, bs) ← ld bs;
      '(v, bs) ← load_vec ld n' bs;
      Some (x ::: v, bs)
  end.

Section Representation.
Variable abi : ABI.

(** A vector: its lanes in order, then whatever room the ABI adds.  Padding
    bytes are written as zero and ignored when read. *)
Definition store_simd {n} (v : vec float n) : list byte :=
  store_vec store_float v ++ replicate (simd_size abi n - 4 * n) Byte.x00.

Definition load_simd (n : nat) (bs : list byte) : option (vec float n * list byte) :=
  '(v, bs) ← load_vec load_float n bs;
  bs ← skip (simd_size abi n - 4 * n) bs;
  Some (v, bs).

(** The matrix is [struct { simd_float4 columns\[4\]; }]. *)
Definition store_float4x4 (m : simd_float4x4) : list byte :=
  store_vec store_simd (columns m).

Definition load_float4x4 (bs : list byte) : option (simd_float4x4 * list byte) :=
  '(c, bs) ← load_vec (load_simd 4) 4 bs;
  Some ({| columns := c |}, bs).

Fixpoint store (t : ctype) : value t → list byte :=
  match t with
  | Tfloat => store_float
  | Tint => store_int
  | Tsimd_float n => store_simd
  | Tsimd_float4x4 => store_float4x4
  | Tarray t' n => store_vec (store t')
  end.

Fixpoint load (t : ctype) : list byte → option (value t * list byte) :=
  match t with
  | Tfloat => load_float
  | Tint => load_int
  | Tsimd_float n => load_simd n
  | Tsimd_float4x4 => load_float4x4
  | Tarray t' n => load_vec (load t') n
  end.

(** The members from offset [off] on, each after the padding that brings it
    to its alignment. *)
Fixpoint store_fields (off : nat) (fs : list field) : fields_value fs → list byte :=
  match fs with
  | [] => λ _, []
  | f :: fs' => λ v,
      let pad := padding off (alignof abi (f_type f)) in
      replicate pad Byte.x00 ++ store (f_type f) v.1
        ++ store_fields (off + pad + sizeof abi (f_type f)) fs' v.2
  end.

Fixpoint load_fields (off : nat) (fs : list field)
    : list byte → option (fields_value fs * list byte) :=
  match fs with
  | [] => λ bs, Some ((), bs)
  | f :: fs' => λ bs,
      let pad := padding off (alignof abi (f_type f)) in
      bs ← skip pad bs;
      '(x, bs) ← load (f_type f) bs;
      '(v, bs) ← load_fields (off + pad + sizeof abi (f_type f)) fs' bs;
      Some ((x, v), bs)
  end.

Definition tail_padding (d : struct_decl) : nat :=
  padding (fields_end abi 0 (s_fields d)) (struct_align abi (s_fields d)).

Definition store_struct (d : struct_decl) (v : fields_value (s_fields d)) : list byte :=
  store_fields 0 (s_fields d) v ++ replicate (tail_padding d) Byte.x00.

Definition load_struct (d : struct_decl) (bs : list byte)
    : option (fields_value (s_fields d) * list byte) :=
  '(v, bs) ← load_fields 0 (s_fields d) bs;
  bs ← skip (tail_padding d) bs;
  Some (v, bs).
End Representation.

(** Size and member offsets: all that a reader of the bytes needs to agree on. *)
Definition struct_layout (abi : ABI) (d : struct_decl) : nat * list nat :=
  (sizeof_struct abi d, field_offsets abi 0 (s_fields d)).

Definition shared_structs : list struct_decl :=
  [VertexIn_decl; VertexUniforms_decl; FragmentUniforms_decl].

(** Each member with the shape the spec gives it and the bytes it takes. *)
Definition member_table (abi : ABI) (d : struct_decl) : list (string * shape * nat) :=
  (λ f, (f_name f, shape_of (f_type f), sizeof abi (f_type f))) <$> s_fields d.

(** Two ABIs that give the float vectors of two, three and four lanes, the
    ones the header uses, the same size and alignment. *)
Definition abi_agree (a b : ABI) : Prop :=
  ∀ n, n ∈ [2; 3; 4] → simd_size a n = simd_size b n ∧ simd_align a n = simd_align b n.

(** A device ABI that lays out the vectors of up to four lanes as
    [abi_padded] does and has no wider vectors. *)
Definition abi_padded_upto4 : ABI :=
  {| simd_size n := if decide (n ≤ 4) then simd_size abi_padded n else 0;
     simd_align n := if decide (n ≤ 4) then simd_align abi_padded n else 1 |}.

(** ** Field access and the buffer shared by host and device *)

(** [fu.colorCount = c;] *)
Definition set_colorCount (c : int) (fu : FragmentUniforms) : FragmentUniforms :=
  {| colors := colors fu; colorCount := c; time := time fu;
     lightPosition := lightPosition fu;
     colorCycleDuration := colorCycleDuration fu;
     glowIntensity := glowIntensity fu |}.

(** Modelled from the spec: the host code that fills the uniforms is not in
    the header.  The spec has [colorCount] count the valid entries of
    [colors], which are the ones consumers read, and leaves the entries beyond
    it unread.  An instance is valid when [colorCount] is such a count: a
    natural number [n], with each of the [n] entries below it an entry of
    [colors]. *)
Definition FragmentUniforms_valid (fu : FragmentUniforms) : Prop :=
  ∃ n : nat, colorCount fu = Z.of_nat n ∧
             ∀ i : nat, i < n → is_Some (colors_at fu (Z.of_nat i)).

(** Modelled from the spec: "host populates struct, copies bytes to
    GPU-visible memory, device reads struct".  The copy overwrites
    [length src] bytes of the buffer from offset [off] and needs them to be
    there. *)
Definition memcpy (buf : list byte) (off : nat) (src : list byte) : option (list byte) :=
  if decide (off + length src ≤ length buf)
  then Some (take off buf ++ src ++ drop (off + length src) buf)
  else None.

(** Modelled from the spec: the host writes an instance by copying its object
    representation into the shared buffer at [off]. *)
Definition host_write (abi : ABI) (d : struct_decl) (v : fields_value (s_fields d))
    (buf : list byte) (off : nat) : option (list byte) :=
  memcpy buf off (store_struct abi d v).

(** Modelled from the spec: the device reads the struct from the bytes of the
    shared buffer that start at [off], with no translation step. *)
Definition device_read (abi : ABI) (d : struct_decl) (buf : list byte) (off : nat)
    : option (fields_value (s_fields d)) :=
  fst <$> load_struct abi d (drop off buf).

(** The same, for the three records. *)
Definition write_VertexIn abi (v : VertexIn) buf off : option (list byte) :=
  host_write abi VertexIn_decl (VertexIn_fields v) buf off.
Definition read_VertexIn abi buf off : option VertexIn :=
  VertexIn_of_fields <$> device_read abi VertexIn_decl buf off.

Definition write_VertexUniforms abi (u : VertexUniforms) buf off : option (list byte) :=
  host_write abi VertexUniforms_decl (VertexUniforms_fields u) buf off.
Definition read_VertexUniforms abi buf off : option VertexUniforms :=
  VertexUniforms_of_fields <$> device_read abi VertexUniforms_decl buf off.

Definition write_FragmentUniforms abi (u : FragmentUniforms) buf off : option (list byte) :=
  host_write abi FragmentUniforms_decl (FragmentUniforms_fields u) buf off.
Definition read_FragmentUniforms abi buf off : option FragmentUniforms :=
  FragmentUniforms_of_fields <$> device_read abi FragmentUniforms_decl buf off.

(** ** Sample values *)

(** 1.0f is 0x3f800000. *)
Definition one_f : float := 1065353216%Z.

Definition sample_FragmentUniforms (n : int) : FragmentUniforms :=
  {| colors := vreplicate 10 [# one_f; 0; one_f]%Z;
     colorCount := n; time := 0; lightPosition := [# 0; one_f; 0]%Z;
     colorCycleDuration := one_f; glowIntensity := one_f |}.

Definition sample_VertexIn : VertexIn :=
  {| position := [# one_f; 0; 0]%Z; normal := [# 0; 0; one_f]%Z |}.

Definition identity4x4 : simd_float4x4 :=
  {| columns := [# [# one_f; 0; 0; 0]; [# 0; one_f; 0; 0];
                   [# 0; 0; one_f; 0]; [# 0; 0; 0; one_f] ]%Z |}.

Definition sample_VertexUniforms : VertexUniforms :=
  {| modelMatrix := identity4x4; viewProjectionMatrix := identity4x4;
     cameraPosition := [# 0; 0; one_f]%Z; spherePosition := [# 0; 0]%Z;
     sphereScale := one_f |}.

(** ** More of the header and of the layout *)

(** The structs the header can declare, and their names. *)
Definition header_structs : list struct_decl := shared_structs ++ [VertexOut_decl].
Definition header_names : list string := s_name <$> header_structs.

(** The representation of each member, in declaration order. *)
Fixpoint fields_bytes (abi : ABI) (fs : list field) : fields_value fs → list (list byte) :=
  match fs with
  | [] => λ _, []
  | f :: fs' => λ v, store abi (f_type f) v.1 :: fields_bytes abi fs' v.2
  end.

(** A loader that takes exactly [k] bytes: it succeeds when they are there,
    leaves the bytes after them and returns a value that satisfies [P]; it
    fails when they are not. *)
Definition loads_exactly {A} (k : nat) (P : A → Prop)
    (ld : list byte → option (A * list byte)) : Prop :=
  ∀ bs, (k ≤ length bs → ∃ x, ld bs = Some (x, drop k bs) ∧ P x)
        ∧ (length bs < k → ld bs = None).

(** * Proofs *)

(** ** Scalars and the object representation *)

Lemma padding_0 a : padding 0 a = 0.
Proof. unfold padding. rewrite Nat.Div0.mod_0_l, Nat.sub_0_r. apply Nat.Div0.mod_same. Qed.

Lemma load_float_store_float f rest :
  float_ok f → load_float (store_float f ++ rest) = Some (f, rest).
Proof.
  intros Hf. unfold load_float, store_float.
  rewrite decide_True by (rewrite length_app, length_le_split; lia).
  rewrite take_app_length' by (by rewrite length_le_split).
  rewrite drop_app_length' by (by rewrite length_le_split).
  rewrite le_combine_split. unfold float_ok in Hf.
  rewrite Z.mod_small by (simpl; lia). done.
Qed.

Lemma int_wrap_id i : int_ok i → int_wrap i = i.
Proof.
  unfold int_ok, int_wrap. intros Hi.
  rewrite Z.mod_small by lia. lia.
Qed.

Lemma int_wrap_mod z : int_wrap (z `mod` 2 ^ 32) = int_wrap z.
Proof.
  unfold int_wrap. f_equal.
  rewrite Zplus_mod_idemp_l. done.
Qed.

Lemma load_int_store_int i rest :
  int_ok i → load_int (store_int i ++ rest) = Some (i, rest).
Proof.
  intros Hi. unfold load_int, store_int.
  rewrite decide_True by (rewrite length_app, length_le_split; lia).
  rewrite take_app_length' by (by rewrite length_le_split).
  rewrite drop_app_length' by (by rewrite length_le_split).
  rewrite le_combine_split.
  change (Z.of_nat 4 * 8)%Z with 32%Z.
  by rewrite int_wrap_mod, int_wrap_id.
Qed.

Lemma skip_replicate n b rest : skip n (replicate n b ++ rest) = Some rest.
Proof.
  unfold skip. rewrite decide_True by (rewrite length_app, length_replicate; lia).
  by rewrite drop_app_length' by (by rewrite length_replicate).
Qed.

Lemma load_vec_store_vec {A} (st : A → list byte) ld (P : A → Prop) :
  (∀ x rest, P x → ld (st x ++ rest) = Some (x, rest)) →
  ∀ n (v : vec A n) rest,
    Forall P (vec_to_list v) → load_vec ld n (store_vec st v ++ rest) = Some (v, rest).
Proof.
  intros Hld n v. induction v as [|x n v IH]; intros rest Hv; [done|].
  apply Forall_cons in Hv as [Hx Hv].
  unfold store_vec in *. cbn [load_vec vec_to_list fmap list_fmap concat].
  rewrite <- app_assoc, Hld by done. cbn.
  rewrite IH by done. done.
Qed.

(** From here on the ABI is arbitrary; lemmas about sizes need that vectors
    have room for their lanes. *)
Section RepresentationProofs.
Variable abi : ABI.
Hypothesis Habi : abi_ok abi.

Lemma load_simd_store_simd n (v : vec float n) rest :
  Forall float_ok (vec_to_list v) →
  load_simd abi n (store_simd abi v ++ rest) = Some (v, rest).
Proof.
  intros Hv. unfold load_simd, store_simd. rewrite <- app_assoc.
  rewrite (load_vec_store_vec _ _ float_ok) by (done || apply load_float_store_float).
  cbn. by rewrite skip_replicate.
Qed.

Lemma load_store t : ∀ (v : value t) rest,
  value_ok t v → load abi t (store abi t v ++ rest) = Some (v, rest).
Proof.
  induction t as [| |n| |t IH n]; intros v rest Hv; cbn [load store value_ok value] in *.
  - by apply load_float_store_float.
  - by apply load_int_store_int.
  - by apply load_simd_store_simd.
  - unfold load_float4x4, store_float4x4.
    rewrite (load_vec_store_vec _ _ (λ c : simd_float4, Forall float_ok (vec_to_list c)))
      by (done || apply load_simd_store_simd).
    by destruct v.
  - by apply (load_vec_store_vec _ _ (value_ok t)).
Qed.

Lemma load_fields_store_fields fs : ∀ off (v : fields_value fs) rest,
  fields_ok fs v →
  load_fields abi off fs (store_fields abi off fs v ++ rest) = Some (v, rest).
Proof.
  induction fs as [|f fs IH]; intros off v rest Hv.
  - by destruct v.
  - destruct v as [x v], Hv as [Hx Hv]. cbn [load_fields store_fields fst snd].
    cbv zeta. rewrite <- !app_assoc, skip_replicate. cbn.
    rewrite load_store by done. cbn. rewrite IH by done. done.
Qed.

Lemma load_struct_store_struct d (v : fields_value (s_fields d)) rest :
  fields_ok (s_fields d) v →
  load_struct abi d (store_struct abi d v ++ rest) = Some (v, rest).
Proof.
  intros Hv. unfold load_struct, store_struct. rewrite <- app_assoc.
  rewrite load_fields_store_fields by done. cbn. by rewrite skip_replicate.
Qed.

Lemma length_store_vec {A} (st : A → list byte) k n (v : vec A n) :
  (∀ x, length (st x) = k) → length (store_vec st v) = n * k.
Proof.
  intros Hst. unfold store_vec. induction v as [|x n v IH]; [done|].
  cbn. rewrite length_app, Hst. cbn in IH. lia.
Qed.

Lemma length_store_simd n (v : vec float n) :
  length (store_simd abi v) = simd_size abi n.
Proof.
  unfold store_simd. rewrite length_app, length_replicate.
  rewrite (length_store_vec _ 4) by apply length_le_split.
  specialize (Habi n). lia.
Qed.

Lemma length_store t : ∀ v : value t, length (store abi t v) = sizeof abi t.
Proof.
  induction t as [| |n| |t IH n]; intros v; cbn [store sizeof value] in *.
  - apply length_le_split.
  - apply length_le_split.
  - apply length_store_simd.
  - apply (length_store_vec _ (simd_size abi 4)), length_store_simd.
  - by apply length_store_vec.
Qed.

Lemma length_store_fields fs : ∀ off (v : fields_value fs),
  off + length (store_fields abi off fs v) = fields_end abi off fs.
Proof.
  induction fs as [|f fs IH]; intros off v; cbn; [lia|].
  rewrite !length_app, length_replicate, length_store.
  rewrite <- (IH _ v.2). unfold align_up. lia.
Qed.

Lemma length_store_struct d v : length (store_struct abi d v) = sizeof_struct abi d.
Proof.
  unfold store_struct, sizeof_struct, align_up, tail_padding.
  rewrite length_app, length_replicate.
  pose proof (length_store_fields (s_fields d) 0 v). lia.
Qed.
End RepresentationProofs.

(** ** The translation units *)

Lemma translation_unit_unfold (predefined : gset string) :
  "ShaderTypes_h" ∉ predefined →
  translation_unit predefined =
    shared_structs ++
    (if bool_decide ("__METAL_VERSION__" ∈ predefined) then [VertexOut_decl] else []).
Proof.
  intros Hguard. unfold translation_unit, ShaderTypes_h, defined.
  cbn [macros structs define declare simd_simd_h].
  rewrite bool_decide_eq_false_2 by done.
  replace (bool_decide ("__METAL_VERSION__" ∈ {["ShaderTypes_h"]} ∪ predefined))
    with (bool_decide ("__METAL_VERSION__" ∈ predefined))
    by (apply bool_decide_ext; rewrite elem_of_union, elem_of_singleton;
        intuition discriminate).
  by case_bool_decide.
Qed.

Lemma translation_unit_guarded (predefined : gset string) :
  "ShaderTypes_h" ∈ predefined → translation_unit predefined = [].
Proof.
  intros Hguard. unfold translation_unit, ShaderTypes_h, defined.
  cbn [macros]. by rewrite bool_decide_eq_true_2.
Qed.

Lemma ShaderTypes_h_defines_guard st :
  defined "ShaderTypes_h" (ShaderTypes_h st) = true.
Proof.
  unfold ShaderTypes_h. destruct (defined "ShaderTypes_h" st) eqn:Hg; [done|].
  cbv zeta. destruct (defined "__METAL_VERSION__" _);
    unfold defined; cbn [macros define declare simd_simd_h];
    apply bool_decide_eq_true_2; rewrite !elem_of_union, elem_of_singleton; auto.
Qed.

(** Including the header a second time declares nothing more. *)
Lemma ShaderTypes_h_idempotent st :
  ShaderTypes_h (ShaderTypes_h st) = ShaderTypes_h st.
Proof.
  unfold ShaderTypes_h at 1. by rewrite ShaderTypes_h_defines_guard.
Qed.

Lemma lookup_shared (predefined : gset string) d :
  "ShaderTypes_h" ∉ predefined → d ∈ shared_structs →
  lookup_struct (s_name d) (translation_unit predefined) = Some d.
Proof.
  intros Hguard Hd. rewrite translation_unit_unfold by done.
  unfold shared_structs in *. 
  repeat (apply elem_of_cons in Hd as [-> | Hd]); [by case_bool_decide..|].
  by apply elem_of_nil in Hd.
Qed.

Lemma lookup_VertexOut (predefined : gset string) :
  "ShaderTypes_h" ∉ predefined →
  lookup_struct "VertexOut" (translation_unit predefined) =
    if bool_decide ("__METAL_VERSION__" ∈ predefined) then Some VertexOut_decl else None.
Proof.
  intros Hguard. rewrite translation_unit_unfold by done. by case_bool_decide.
Qed.

(** ** The records follow their declarations *)

Lemma VertexIn_fields_inv v : VertexIn_of_fields (VertexIn_fields v) = v.
Proof. by destruct v. Qed.

Lemma VertexUniforms_fields_inv u :
  VertexUniforms_of_fields (VertexUniforms_fields u) = u.
Proof. by destruct u. Qed.

Lemma FragmentUniforms_fields_inv u :
  FragmentUniforms_of_fields (FragmentUniforms_fields u) = u.
Proof. by destruct u. Qed.

(** C6. [VertexIn] has exactly two members, in this order: [position], a
    3-component float vector, and [normal], a 3-component float vector.  The
    record [VertexIn] has one field per member, and every translation unit
    that includes the header gets this declaration. *)
Theorem VertexIn_members :
  members VertexIn_decl =
    [ ("position", float_vector 3); ("normal", float_vector 3) ]
  ∧ (∀ v, VertexIn_of_fields (VertexIn_fields v) = v)
  ∧ (∀ g, VertexIn_fields (VertexIn_of_fields g) = g)
  ∧ (∀ predefined : gset string, "ShaderTypes_h" ∉ predefined →
       lookup_struct "VertexIn" (translation_unit predefined) = Some VertexIn_decl).
Proof.
  split_and!; [done | apply VertexIn_fields_inv | by intros (?&?&[]) |].
  intros predefined Hg. apply (lookup_shared _ VertexIn_decl Hg).
  unfold shared_structs. rewrite !elem_of_cons. auto.
Qed.

(** C5. [VertexUniforms] has exactly these members, in this order:
    [modelMatrix], a 4x4 float matrix; [viewProjectionMatrix], a 4x4 float
    matrix; [cameraPosition], a 3-component float vector; [spherePosition], a
    2-component float vector; [sphereScale], a scalar float. *)
Theorem VertexUniforms_members :
  members VertexUniforms_decl =
    [ ("modelMatrix", float_matrix 4 4);
      ("viewProjectionMatrix", float_matrix 4 4);
      ("cameraPosition", float_vector 3);
      ("spherePosition", float_vector 2);
      ("sphereScale", float_scalar) ]
  ∧ (∀ u, VertexUniforms_of_fields (VertexUniforms_fields u) = u)
  ∧ (∀ g, VertexUniforms_fields (VertexUniforms_of_fields g) = g)
  ∧ (∀ predefined : gset string, "ShaderTypes_h" ∉ predefined →
       lookup_struct "VertexUniforms" (translation_unit predefined)
       = Some VertexUniforms_decl).
Proof.
  split_and!; [done | apply VertexUniforms_fields_inv
              | by intros (?&?&?&?&?&[]) |].
  intros predefined Hg. apply (lookup_shared _ VertexUniforms_decl Hg).
  unfold shared_structs. rewrite !elem_of_cons. auto.
Qed.

(** C3. [FragmentUniforms] has exactly these members, in this order: [colors],
    an array of exactly 10 three-component float vectors; [colorCount], an
    integer; [time], a scalar float; [lightPosition], a 3-component float
    vector; [colorCycleDuration], a scalar float; [glowIntensity], a scalar
    float. *)
Theorem FragmentUniforms_members :
  members FragmentUniforms_decl =
    [ ("colors", fixed_array 10 (float_vector 3));
      ("colorCount", integer);
      ("time", float_scalar);
      ("lightPosition", float_vector 3);
      ("colorCycleDuration", float_scalar);
      ("glowIntensity", float_scalar) ]
  ∧ (∀ u, length (vec_to_list (colors u)) = 10)
  ∧ (∀ u, FragmentUniforms_of_fields (FragmentUniforms_fields u) = u)
  ∧ (∀ g, FragmentUniforms_fields (FragmentUniforms_of_fields g) = g)
  ∧ (∀ predefined : gset string, "ShaderTypes_h" ∉ predefined →
       lookup_struct "FragmentUniforms" (translation_unit predefined)
       = Some FragmentUniforms_decl).
Proof.
  split_and!; [done | intros; apply length_vec_to_list
              | apply FragmentUniforms_fields_inv
              | by intros (?&?&?&?&?&?&[]) |].
  intros predefined Hg. apply (lookup_shared _ FragmentUniforms_decl Hg).
  unfold shared_structs. rewrite !elem_of_cons. auto.
Qed.

(** C7. [VertexOut] is declared in a translation unit exactly when
    [__METAL_VERSION__] is defined when the header is preprocessed: the
    declaration depends on the macros alone, the header has no code that could
    branch at run time.  Its members are a 4-component float vector carrying
    the [position] attribute, then the 3-component float vectors
    [worldPosition], [worldNormal] and [viewDirection]. *)
Theorem VertexOut_device_only (predefined : gset string) :
  "ShaderTypes_h" ∉ predefined →
  lookup_struct "VertexOut" (translation_unit predefined)
    = (if bool_decide ("__METAL_VERSION__" ∈ predefined)
       then Some VertexOut_decl else None)
  ∧ (VertexOut_decl ∈ translation_unit predefined
       ↔ "__METAL_VERSION__" ∈ predefined)
  ∧ (λ f, (f_name f, shape_of (f_type f), f_attr f)) <$> s_fields VertexOut_decl =
      [ ("position", float_vector 4, Some "position");
        ("worldPosition", float_vector 3, None);
        ("worldNormal", float_vector 3, None);
        ("viewDirection", float_vector 3, None) ].
Proof.
  intros Hg. split_and!; [by apply lookup_VertexOut | | done].
  rewrite translation_unit_unfold by done. unfold shared_structs.
  case_bool_decide; rewrite ?elem_of_app, !elem_of_cons, ?elem_of_nil;
    intuition discriminate.
Qed.

Lemma VertexOut_device_only_witness :
  lookup_struct "VertexOut" (translation_unit {[ "__METAL_VERSION__" ]})
    = Some VertexOut_decl
  ∧ lookup_struct "VertexOut" (translation_unit ∅) = None.
Proof.
  split.
  - refine (proj1 (VertexOut_device_only {[ "__METAL_VERSION__" ]} _)).
    by vm_compute.
  - refine (proj1 (VertexOut_device_only ∅ _)). by vm_compute.
Defined.

(** ** The shared buffer *)

Lemma memcpy_spec buf off src :
  off + length src ≤ length buf →
  ∃ buf', memcpy buf off src = Some buf' ∧ length buf' = length buf
          ∧ drop off buf' = src ++ drop (off + length src) buf.
Proof.
  intros Hfit. unfold memcpy. rewrite decide_True by done.
  eexists. split_and!; [done | |].
  - rewrite !length_app, length_take, length_drop. lia.
  - apply drop_app_length'. rewrite length_take. lia.
Qed.

Lemma device_read_host_write abi d (v : fields_value (s_fields d)) buf off :
  abi_ok abi → fields_ok (s_fields d) v →
  off + sizeof_struct abi d ≤ length buf →
  ∃ buf', host_write abi d v buf off = Some buf' ∧ length buf' = length buf
          ∧ device_read abi d buf' off = Some v.
Proof.
  intros Habi Hv Hfit. unfold host_write, device_read.
  destruct (memcpy_spec buf off (store_struct abi d v)) as (buf' & -> & Hlen & Hdrop).
  { by rewrite length_store_struct. }
  exists buf'. split_and!; [done..|].
  by rewrite Hdrop, load_struct_store_struct.
Qed.

(** C4. For every instance of [VertexIn], [VertexUniforms] and
    [FragmentUniforms]: when the host copies the instance into a buffer that
    has room for it at the offset, the copy succeeds and the device, reading
    the struct at that offset with the same ABI, gets an instance equal to the
    original, member by member. *)
Theorem shared_buffer_round_trip (abi : ABI) (buf : list byte) (off : nat) :
  abi_ok abi →
  (∀ v, VertexIn_ok v → off + sizeof_struct abi VertexIn_decl ≤ length buf →
     ∃ buf', write_VertexIn abi v buf off = Some buf'
             ∧ read_VertexIn abi buf' off = Some v)
  ∧ (∀ u, VertexUniforms_ok u →
       off + sizeof_struct abi VertexUniforms_decl ≤ length buf →
       ∃ buf', write_VertexUniforms abi u buf off = Some buf'
               ∧ read_VertexUniforms abi buf' off = Some u)
  ∧ (∀ u, FragmentUniforms_ok u →
       off + sizeof_struct abi FragmentUniforms_decl ≤ length buf →
       ∃ buf', write_FragmentUniforms abi u buf off = Some buf'
               ∧ read_FragmentUniforms abi buf' off = Some u).
Proof.
  intros Habi. split_and!; intros v Hv Hfit.
  - destruct (device_read_host_write abi VertexIn_decl _ buf off Habi Hv Hfit)
      as (buf' & Hw & _ & Hr).
    exists buf'. split; [done|]. unfold read_VertexIn.
    rewrite Hr. exact (f_equal Some (VertexIn_fields_inv v)).
  - destruct (device_read_host_write abi VertexUniforms_decl _ buf off Habi Hv Hfit)
      as (buf' & Hw & _ & Hr).
    exists buf'. split; [done|]. unfold read_VertexUniforms.
    rewrite Hr. exact (f_equal Some (VertexUniforms_fields_inv v)).
  - destruct (device_read_host_write abi FragmentUniforms_decl _ buf off Habi Hv Hfit)
      as (buf' & Hw & _ & Hr).
    exists buf'. split; [done|]. unfold read_FragmentUniforms.
    rewrite Hr. exact (f_equal Some (FragmentUniforms_fields_inv v)).
Qed.

Lemma abi_packed_ok : abi_ok abi_packed.
Proof. intros n. cbn. lia. Qed.

Lemma abi_padded_ok : abi_ok abi_padded.
Proof. intros [|[|[|[|n]]]]; cbn; lia. Qed.

Ltac solve_ok :=
  cbv [VertexIn_ok VertexUniforms_ok FragmentUniforms_ok]; cbn;
  repeat match goal with
    | |- float_ok _ => unfold float_ok, one_f; lia
    | |- int_ok _ => done || (unfold int_ok; lia)
    | |- True => exact I
    | |- _ ∧ _ => split
    | |- Forall _ _ => constructor
    end.

Lemma sample_VertexIn_ok : VertexIn_ok sample_VertexIn.
Proof. solve_ok. Qed.

Lemma sample_VertexUniforms_ok : VertexUniforms_ok sample_VertexUniforms.
Proof. solve_ok. Qed.

Lemma sample_FragmentUniforms_ok n : int_ok n → FragmentUniforms_ok (sample_FragmentUniforms n).
Proof. intros Hn. solve_ok. Qed.

Lemma shared_buffer_round_trip_witness :
  (∃ buf', write_VertexIn abi_padded sample_VertexIn (replicate 256 Byte.x00) 16
             = Some buf'
           ∧ read_VertexIn abi_padded buf' 16 = Some sample_VertexIn)
  ∧ (∃ buf', write_VertexUniforms abi_padded sample_VertexUniforms
               (replicate 256 Byte.x00) 16 = Some buf'
             ∧ read_VertexUniforms abi_padded buf' 16 = Some sample_VertexUniforms)
  ∧ (∃ buf', write_FragmentUniforms abi_padded (sample_FragmentUniforms 7)
               (replicate 256 Byte.x00) 16 = Some buf'
             ∧ read_FragmentUniforms abi_padded buf' 16
               = Some (sample_FragmentUniforms 7)).
Proof.
  destruct (shared_buffer_round_trip abi_padded (replicate 256 Byte.x00) 16
              abi_padded_ok)
    as (Hin & Hvu & Hfu).
  split_and!.
  - apply Hin; [apply sample_VertexIn_ok | vm_compute; lia].
  - apply Hvu; [apply sample_VertexUniforms_ok | vm_compute; lia].
  - apply Hfu; [apply sample_FragmentUniforms_ok; unfold int_ok; lia
               | vm_compute; lia].
Defined.

(** ** Widths and layout *)

Lemma abi_agree_layout a b d :
  abi_agree a b → d ∈ header_structs → struct_layout a d = struct_layout b d.
Proof.
  intros Hab Hd.
  destruct (Hab 2) as [S2 A2]; [rewrite !elem_of_cons; auto|].
  destruct (Hab 3) as [S3 A3]; [rewrite !elem_of_cons; auto|].
  destruct (Hab 4) as [S4 A4]; [rewrite !elem_of_cons; auto|].
  unfold header_structs, shared_structs in Hd.
  rewrite elem_of_app, !elem_of_cons, !elem_of_nil in Hd.
  destruct Hd as [[-> | [-> | [-> | []]]] | [-> | []]];
    cbv [struct_layout sizeof_struct field_offsets fields_end struct_align foldr
         sizeof alignof s_fields f_type VertexIn_decl VertexUniforms_decl
         FragmentUniforms_decl VertexOut_decl];
    by rewrite S2, S3, S4, A2, A3, A4 || by rewrite S3, S4, A3, A4 || by rewrite S3, A3.
Qed.

Lemma store_simd_lanes abi n (v : vec float n) :
  abi_ok abi →
  take (4 * n) (store abi (Tsimd_float n) v) = concat (store_float <$> vec_to_list v)
  ∧ length (store abi (Tsimd_float n) v) = simd_size abi n.
Proof.
  intros Habi. split; [|by apply (length_store abi Habi (Tsimd_float n))].
  cbn [store]. unfold store_simd. apply take_app_length'.
  fold (store_vec store_float v).
  rewrite (length_store_vec store_float 4) by apply length_le_split. lia.
Qed.

(** C2, amended. A vector member holds its lanes, three 32-bit floats for a
    3-component vector, in its first bytes, and takes the bytes the ABI gives
    its simd type: under the platform's layout a 3-component vector member
    takes 16 bytes, as a 4-component one does, a 4x4 matrix 64, the count 4,
    and the three structs have the sizes and member offsets listed.  Host and
    device get the same declarations, so the byte size and the member offsets
    of each struct are the same on both sides whenever the two ABIs agree on
    the vectors of two, three and four lanes. *)
Theorem shared_layout_by_abi (host_abi device_abi : ABI) (host device : gset string) :
  "ShaderTypes_h" ∉ host → "ShaderTypes_h" ∉ device →
  abi_agree host_abi device_abi →
  Forall (λ d,
      lookup_struct (s_name d) (translation_unit host) = Some d
      ∧ lookup_struct (s_name d) (translation_unit device) = Some d
      ∧ struct_layout host_abi d = struct_layout device_abi d)
    shared_structs
  ∧ member_table abi_padded <$> shared_structs =
      [ [ ("position", float_vector 3, 16); ("normal", float_vector 3, 16) ];
        [ ("modelMatrix", float_matrix 4 4, 64);
          ("viewProjectionMatrix", float_matrix 4 4, 64);
          ("cameraPosition", float_vector 3, 16);
          ("spherePosition", float_vector 2, 8);
          ("sphereScale", float_scalar, 4) ];
        [ ("colors", fixed_array 10 (float_vector 3), 160);
          ("colorCount", integer, 4);
          ("time", float_scalar, 4);
          ("lightPosition", float_vector 3, 16);
          ("colorCycleDuration", float_scalar, 4);
          ("glowIntensity", float_scalar, 4) ] ]
  ∧ struct_layout abi_padded <$> shared_structs =
      [ (32, [0; 16]);
        (160, [0; 64; 128; 144; 152]);
        (208, [0; 160; 164; 176; 192; 196]) ]
  ∧ (∀ abi n (v : vec float n), abi_ok abi →
       take (4 * n) (store abi (Tsimd_float n) v)
         = concat (store_float <$> vec_to_list v)
       ∧ length (store abi (Tsimd_float n) v) = simd_size abi n).
Proof.
  intros Hh Hd Hab. split_and!; [| reflexivity | reflexivity |].
  - apply Forall_forall. intros d Hin. rewrite !lookup_shared by done.
    split_and!; [done..|]. apply abi_agree_layout; [done|].
    unfold header_structs. apply elem_of_app. by left.
  - intros abi n v Habi. by apply store_simd_lanes.
Qed.

(** The device's ABI in the witness differs from the host's on the vectors
    the header does not use. *)
Lemma shared_layout_by_abi_witness :
  Forall (λ d,
      struct_layout abi_padded d
      = struct_layout abi_padded_upto4 d)
    shared_structs.
Proof.
  eapply Forall_impl.
  - refine (proj1 (shared_layout_by_abi abi_padded abi_padded_upto4 ∅ {[ "__METAL_VERSION__" ]} _ _ _));
      [by vm_compute | by vm_compute |].
    intros n Hn. rewrite !elem_of_cons, elem_of_nil in Hn.
    by destruct Hn as [-> | [-> | [-> | []]]].
  - intros d (_ & _ & H). exact H.
Defined.

(** C2 as stated fails: under the platform's layout the 3-component vector
    [position] of [VertexIn] takes 16 bytes, not the 12 of three floats;
    [normal] starts at offset 16 and the struct takes 32 bytes, not 24. *)
Lemma three_vector_member_takes_sixteen_bytes :
  abi_ok abi_padded
  ∧ Field Tsimd_float3 "position" None ∈ s_fields VertexIn_decl
  ∧ shape_of Tsimd_float3 = float_vector 3
  ∧ sizeof abi_padded Tsimd_float3 = 16
  ∧ sizeof abi_padded Tsimd_float3 ≠ 3 * 4
  ∧ (∀ v : simd_float3, length (store abi_padded Tsimd_float3 v) = 16)
  ∧ offsetof abi_padded VertexIn_decl "normal" = Some 16
  ∧ sizeof_struct abi_padded VertexIn_decl = 32
  ∧ sizeof_struct abi_padded VertexIn_decl ≠ 2 * (3 * 4).
Proof.
  split_and!; try (cbn; done).
  - apply abi_padded_ok.
  - cbn. rewrite !elem_of_cons. auto.
  - intros v. apply (length_store abi_padded abi_padded_ok Tsimd_float3).
Qed.

(** The sizes and offsets under the two sample ABIs. *)
Example layout_packed :
  struct_layout abi_packed <$> shared_structs =
    [ (24, [0; 12]);
      (152, [0; 64; 128; 140; 148]);
      (148, [0; 120; 124; 128; 140; 144]) ].
Proof. reflexivity. Qed.

Example layout_padded :
  struct_layout abi_padded <$> shared_structs =
    [ (32, [0; 16]);
      (160, [0; 64; 128; 144; 152]);
      (208, [0; 160; 164; 176; 192; 196]) ].
Proof. reflexivity. Qed.

(** ** The colors array *)

Lemma colors_at_Some fu (i : Z) :
  (0 ≤ i < 10)%Z → is_Some (colors_at fu i).
Proof.
  intros Hi. unfold colors_at. rewrite decide_True by lia.
  apply lookup_lt_is_Some_2. rewrite length_vec_to_list. lia.
Qed.

Lemma colors_at_None fu (i : Z) :
  ¬ (0 ≤ i < 10)%Z → colors_at fu i = None.
Proof.
  intros Hi. unfold colors_at. case_decide; [|done].
  apply lookup_ge_None_2. rewrite length_vec_to_list. lia.
Qed.

Lemma take_drop_store_vec {A} (st : A → list byte) k x rest :
  (∀ y, length (st y) = k) →
  ∀ n (v : vec A n) i, vec_to_list v !! i = Some x →
    take k (drop (i * k) (store_vec st v ++ rest)) = st x.
Proof.
  intros Hst n v. unfold store_vec.
  induction v as [|y n v IH]; intros i Hi; [done|].
  cbn [vec_to_list fmap list_fmap concat]. rewrite <- app_assoc.
  destruct i as [|i]; cbn in Hi.
  - injection Hi as ->. by apply take_app_length'.
  - replace (S i * k) with (k + i * k) by lia.
    rewrite drop_app_add' by done. by apply IH.
Qed.

(** C10. For every [FragmentUniforms] and every index [0 ≤ i < 10],
    [colors\[i\]] is defined, whatever [colorCount] holds; the bytes of that
    entry lie inside the [colors] member, which starts the struct and ends
    inside it, and they are the entry's representation. *)
Theorem colors_in_bounds (fu : FragmentUniforms) (i : Z) :
  (0 ≤ i < 10)%Z →
  ∃ v : simd_float3,
    colors_at fu i = Some v
    ∧ (∀ c : int, colors_at (set_colorCount c fu) i = Some v)
    ∧ ∀ abi, abi_ok abi →
        let s := sizeof abi Tsimd_float3 in
        offsetof abi FragmentUniforms_decl "colors" = Some 0
        ∧ Z.to_nat i * s + s ≤ sizeof abi (Tarray Tsimd_float3 10)
        ∧ sizeof abi (Tarray Tsimd_float3 10) ≤ sizeof_struct abi FragmentUniforms_decl
        ∧ take s (drop (Z.to_nat i * s)
                    (store_struct abi FragmentUniforms_decl (FragmentUniforms_fields fu)))
          = store abi Tsimd_float3 v.
Proof.
  intros Hi. destruct (colors_at_Some fu i Hi) as [v Hv]. exists v.
  split_and!; [done | done |].
  intros abi Habi s. split_and!.
  - unfold offsetof. cbn. unfold align_up. by rewrite padding_0.
  - subst s. cbn [sizeof]. assert (Z.to_nat i < 10) by lia. nia.
  - unfold sizeof_struct. cbn [s_fields FragmentUniforms_decl fields_end f_type].
    unfold align_up. lia.
  - unfold store_struct. cbn [s_fields FragmentUniforms_decl store_fields f_type fst snd].
    cbv zeta. rewrite padding_0. cbn [replicate app store].
    rewrite <- app_assoc. apply take_drop_store_vec.
    + intros y. by apply (length_store abi Habi Tsimd_float3).
    + unfold colors_at in Hv. by rewrite decide_True in Hv by lia.
Qed.

Lemma colors_in_bounds_witness :
  ∃ v : simd_float3, colors_at (sample_FragmentUniforms 0) 9 = Some v.
Proof.
  destruct (colors_in_bounds (sample_FragmentUniforms 0) 9) as (v & Hv & _).
  - lia.
  - by exists v.
Defined.

Example colors_past_the_end : colors_at (sample_FragmentUniforms 0) 10 = None.
Proof. reflexivity. Qed.

Example colors_before_the_start : colors_at (sample_FragmentUniforms 0) (-1) = None.
Proof. reflexivity. Qed.

(** ** The count of valid colors *)

Lemma valid_of_bounds fu :
  (0 ≤ colorCount fu ≤ 10)%Z → FragmentUniforms_valid fu.
Proof.
  intros Hc. exists (Z.to_nat (colorCount fu)). split; [lia|].
  intros i Hi. apply colors_at_Some. lia.
Qed.

(** C1. For every valid [FragmentUniforms], [0 ≤ colorCount ≤ 10]: a count of
    entries of [colors] cannot exceed the ten entries the array has. *)
Theorem valid_colorCount_bounds (fu : FragmentUniforms) :
  FragmentUniforms_valid fu → (0 ≤ colorCount fu ≤ 10)%Z.
Proof.
  intros (n & Hn & Hread). split; [lia|].
  destruct (decide (n ≤ 10)) as [|Hgt]; [lia|].
  destruct (Hread 10) as [v Hv]; [lia|].
  by rewrite colors_at_None in Hv by lia.
Qed.

Lemma valid_colorCount_bounds_witness :
  FragmentUniforms_valid (sample_FragmentUniforms 3)
  ∧ (0 ≤ colorCount (sample_FragmentUniforms 3) ≤ 10)%Z.
Proof.
  assert (Hvalid : FragmentUniforms_valid (sample_FragmentUniforms 3)).
  { exists 3. split; [reflexivity|].
    intros [|[|[|i]]] Hi; [by eexists..|lia]. }
  split; [exact Hvalid|].
  exact (valid_colorCount_bounds (sample_FragmentUniforms 3) Hvalid).
Defined.

Lemma load_store_FragmentUniforms abi fu rest :
  FragmentUniforms_ok fu →
  load_struct abi FragmentUniforms_decl
    (store_struct abi FragmentUniforms_decl (FragmentUniforms_fields fu) ++ rest)
  = Some (FragmentUniforms_fields fu, rest).
Proof. apply load_struct_store_struct. Qed.

(** C8. [colorCount = 0] and [colorCount = 10] are both representable: 0 and
    10 are values of [int] that the conversion to [int] leaves as they are,
    there are valid instances holding them, the member reads back as 0 and as
    10 after it is assigned, and also after the instance is stored to bytes
    and loaded again, under any ABI. *)
Theorem colorCount_boundaries_representable :
  int_ok 0 ∧ int_ok 10 ∧ int_wrap 0 = 0%Z ∧ int_wrap 10 = 10%Z
  ∧ (∀ fu, colorCount (set_colorCount (int_wrap 0) fu) = 0%Z
           ∧ colorCount (set_colorCount (int_wrap 10) fu) = 10%Z)
  ∧ ∃ fu0 fu10,
      colorCount fu0 = 0%Z ∧ colorCount fu10 = 10%Z
      ∧ FragmentUniforms_ok fu0 ∧ FragmentUniforms_ok fu10
      ∧ FragmentUniforms_valid fu0 ∧ FragmentUniforms_valid fu10
      ∧ ∀ abi rest,
          (colorCount ∘ FragmentUniforms_of_fields ∘ fst)
            <$> load_struct abi FragmentUniforms_decl
                  (store_struct abi FragmentUniforms_decl
                     (FragmentUniforms_fields fu0) ++ rest) = Some 0%Z
          ∧ (colorCount ∘ FragmentUniforms_of_fields ∘ fst)
              <$> load_struct abi FragmentUniforms_decl
                    (store_struct abi FragmentUniforms_decl
                       (FragmentUniforms_fields fu10) ++ rest) = Some 10%Z.
Proof.
  assert (H0 : int_ok 0) by (unfold int_ok; lia).
  assert (H10 : int_ok 10) by (unfold int_ok; lia).
  split_and!; [done | done | reflexivity | reflexivity | by intros fu |].
  exists (sample_FragmentUniforms 0), (sample_FragmentUniforms 10).
  split_and!; [done | done | by apply sample_FragmentUniforms_ok..
              | apply valid_of_bounds; cbn; lia | apply valid_of_bounds; cbn; lia |].
  intros abi rest.
  by rewrite !load_store_FragmentUniforms by by apply sample_FragmentUniforms_ok.
Qed.

(** A value outside the range of [int] does not survive the conversion. *)
Example colorCount_truncated : int_wrap (2 ^ 32 + 10) = 10%Z.
Proof. reflexivity. Qed.

Example colorCount_overflows : int_wrap (INT_MAX + 1) = INT_MIN.
Proof. reflexivity. Qed.

(** C9. [colorCount] is a plain [int]: every value of [int] is the
    [colorCount] of some well-formed instance, which stores and loads
    unchanged; the instances holding -1 or 11 are well-formed and yet not
    valid, so the bounds [0 ≤ colorCount ≤ 10] do not follow from the type. *)
Theorem colorCount_not_bounded_by_type :
  (∀ c : int, int_ok c →
     ∃ fu, FragmentUniforms_ok fu ∧ colorCount fu = c
           ∧ ∀ abi rest,
               load_struct abi FragmentUniforms_decl
                 (store_struct abi FragmentUniforms_decl
                    (FragmentUniforms_fields fu) ++ rest)
               = Some (FragmentUniforms_fields fu, rest))
  ∧ (∃ fu, FragmentUniforms_ok fu ∧ colorCount fu = (-1)%Z
           ∧ ¬ FragmentUniforms_valid fu)
  ∧ (∃ fu, FragmentUniforms_ok fu ∧ colorCount fu = 11%Z
           ∧ ¬ FragmentUniforms_valid fu)
  ∧ (∃ fu, FragmentUniforms_ok fu ∧ colorCount fu = INT_MAX
           ∧ ¬ (0 ≤ colorCount fu ≤ 10)%Z).
Proof.
  split_and!.
  - intros c Hc. exists (sample_FragmentUniforms c).
    split_and!; [by apply sample_FragmentUniforms_ok | done |].
    intros abi rest. by apply load_store_FragmentUniforms, sample_FragmentUniforms_ok.
  - exists (sample_FragmentUniforms (-1)).
    split_and!; [apply sample_FragmentUniforms_ok; unfold int_ok; lia | done |].
    intros (n & Hn & _). cbn in Hn. lia.
  - exists (sample_FragmentUniforms 11).
    split_and!; [apply sample_FragmentUniforms_ok; unfold int_ok; lia | done |].
    intros (n & Hn & Hread). cbn in Hn.
    destruct (Hread 10) as [v Hv]; [lia|].
    by rewrite colors_at_None in Hv by lia.
  - exists (sample_FragmentUniforms INT_MAX).
    split_and!; [apply sample_FragmentUniforms_ok; unfold int_ok, INT_MAX; lia | done |].
    cbn. unfold INT_MAX. lia.
Qed.

(** * The header as a whole *)

(** ** The include guard *)

Lemma ShaderTypes_h_guarded st :
  defined "ShaderTypes_h" st = true → ShaderTypes_h st = st.
Proof. intros Hg. unfold ShaderTypes_h. by rewrite Hg. Qed.

Lemma ShaderTypes_h_macros st :
  macros (ShaderTypes_h st) = {[ "ShaderTypes_h" ]} ∪ macros st.
Proof.
  unfold ShaderTypes_h. destruct (defined "ShaderTypes_h" st) eqn:Hg.
  - apply bool_decide_eq_true_1 in Hg. apply set_eq. intros m.
    rewrite elem_of_union, elem_of_singleton. intuition congruence.
  - cbv zeta. by destruct (defined "__METAL_VERSION__" _).
Qed.

(** X1. Including the header any number of times, at least once, leaves the
    translation unit as one inclusion does: after the first pass the guard
    macro is defined and every later pass is skipped. *)
Theorem include_guard_idempotent (n : nat) (st : pp_state) :
  Nat.iter (S n) ShaderTypes_h st = ShaderTypes_h st.
Proof.
  induction n as [|n IH]; [done|].
  change (ShaderTypes_h (Nat.iter (S n) ShaderTypes_h st) = ShaderTypes_h st).
  rewrite IH. apply ShaderTypes_h_guarded, ShaderTypes_h_defines_guard.
Qed.

Lemma structs_ShaderTypes_h st :
  structs (ShaderTypes_h st) =
    if defined "ShaderTypes_h" st then structs st
    else structs st ++ shared_structs ++
         (if bool_decide ("__METAL_VERSION__" ∈ macros st) then [VertexOut_decl] else []).
Proof.
  unfold ShaderTypes_h. destruct (defined "ShaderTypes_h" st); [done|].
  cbv zeta. unfold defined at 1. cbn [macros define declare simd_simd_h].
  replace (bool_decide ("__METAL_VERSION__" ∈ {["ShaderTypes_h"]} ∪ macros st))
    with (bool_decide ("__METAL_VERSION__" ∈ macros st))
    by (apply bool_decide_ext; rewrite elem_of_union, elem_of_singleton;
        intuition discriminate).
  case_bool_decide; cbn [structs declare define simd_simd_h];
    by rewrite <- !app_assoc.
Qed.

(** X2. The header changes the state exactly when its guard macro is not yet
    defined: with [ShaderTypes_h] defined it is skipped as a whole; otherwise
    it defines the guard and adds, after the structs already declared,
    [VertexIn], [VertexUniforms] and [FragmentUniforms], in that order. *)
Theorem include_skipped_iff_guarded (st : pp_state) :
  (ShaderTypes_h st = st ↔ "ShaderTypes_h" ∈ macros st)
  ∧ ("ShaderTypes_h" ∉ macros st →
       "ShaderTypes_h" ∈ macros (ShaderTypes_h st)
       ∧ ∃ new, structs (ShaderTypes_h st) = structs st ++ new
                ∧ shared_structs `sublist_of` new).
Proof.
  split; [split|].
  - intros Heq. rewrite <- Heq, ShaderTypes_h_macros.
    apply elem_of_union_l, elem_of_singleton. reflexivity.
  - intros Hg. by apply ShaderTypes_h_guarded, bool_decide_eq_true_2.
  - intros Hg. split.
    + rewrite ShaderTypes_h_macros. apply elem_of_union_l, elem_of_singleton.
      reflexivity.
    + rewrite structs_ShaderTypes_h. unfold defined.
      rewrite bool_decide_eq_false_2 by done.
      eexists. split; [done|]. by apply sublist_inserts_r.
Qed.

(** X4. The header never declares a struct twice: in a translation unit whose
    structs have distinct names, none of them one of the header's four,
    the names are still distinct after the header has been included any
    number of times. *)
Theorem include_never_redeclares (n : nat) (st : pp_state) :
  NoDup (s_name <$> structs st) →
  (∀ d, d ∈ structs st → s_name d ∉ header_names) →
  NoDup (s_name <$> structs (Nat.iter n ShaderTypes_h st)).
Proof.
  intros Hnd Hfresh. destruct n as [|n]; [done|].
  assert (Nat.iter (S n) ShaderTypes_h st = ShaderTypes_h st) as ->.
  { induction n as [|n IH]; [done|].
    change (ShaderTypes_h (Nat.iter (S n) ShaderTypes_h st) = ShaderTypes_h st).
    rewrite IH. apply ShaderTypes_h_guarded, ShaderTypes_h_defines_guard. }
  rewrite structs_ShaderTypes_h. destruct (defined "ShaderTypes_h" st); [done|].
  rewrite fmap_app. apply NoDup_app. split_and!; [done | |].
  - intros name (d & -> & Hd)%list_elem_of_fmap Hin. apply (Hfresh d Hd).
    unfold header_names, header_structs. rewrite fmap_app, elem_of_app.
    rewrite fmap_app, elem_of_app in Hin. destruct Hin as [Hin | Hin]; [by left|].
    right. by case_bool_decide; [|apply elem_of_nil in Hin].
  - case_bool_decide; cbn;
      repeat (apply NoDup_cons; split;
              [rewrite ?elem_of_cons, ?elem_of_nil; intuition discriminate|]);
      apply NoDup_nil_2.
Qed.

Lemma include_never_redeclares_witness :
  NoDup (s_name <$> structs
           (Nat.iter 3 ShaderTypes_h
              {| macros := {[ "__METAL_VERSION__" ]};
                 structs := [Struct "Particle" [Field Tfloat "mass" None]] |})).
Proof.
  apply include_never_redeclares.
  - cbn. apply NoDup_singleton.
  - intros d ->%list_elem_of_singleton. cbn.
    rewrite !elem_of_cons, elem_of_nil. intuition discriminate.
Defined.

(** * Scalars and array bounds *)

(** X7. [colors\[i\]] is defined exactly for [0 ≤ i < 10]: any other index,
    negative or past the end, is outside the array, whatever [colorCount]
    says; inside, the entry is the one the vector holds at that place. *)
Theorem colors_at_defined_iff (fu : FragmentUniforms) (i : Z) :
  (is_Some (colors_at fu i) ↔ (0 ≤ i < 10)%Z)
  ∧ (∀ j : fin 10, colors_at fu (Z.of_nat (fin_to_nat j)) = Some (colors fu !!! j))
  ∧ (colors_at fu (colorCount fu) = None ↔ ¬ (0 ≤ colorCount fu < 10)%Z).
Proof.
  assert (Hiff : ∀ k, is_Some (colors_at fu k) ↔ (0 ≤ k < 10)%Z).
  { intros k. split; [|apply colors_at_Some].
    intros Hs. destruct (decide (0 ≤ k < 10)%Z) as [|Hk]; [done|].
    rewrite colors_at_None in Hs by done. by destruct Hs. }
  split_and!; [apply Hiff | |].
  - intros j. unfold colors_at. rewrite decide_True by lia.
    rewrite Nat2Z.id. by apply vlookup_lookup.
  - rewrite eq_None_not_Some. by rewrite Hiff.
Qed.

Lemma int_wrap_ok z : int_ok (int_wrap z).
Proof.
  unfold int_ok, int_wrap.
  pose proof (Z.mod_pos_bound (z + 2 ^ 31) (2 ^ 32)). lia.
Qed.

(** X8. Four bytes hold an [int] and no more: storing any integer and loading
    it back gives the integer converted to [int], which is always in range
    and is the integer itself exactly when that was in range; two integers
    that differ by 2^32 load as the same [int]. *)
Theorem int_store_truncates (z : Z) (rest : list byte) :
  load_int (store_int z ++ rest) = Some (int_wrap z, rest)
  ∧ int_ok (int_wrap z)
  ∧ (int_wrap z = z ↔ int_ok z)
  ∧ store_int (z + 2 ^ 32) = store_int z.
Proof.
  split_and!.
  - unfold load_int, store_int.
    rewrite decide_True by (rewrite length_app, length_le_split; lia).
    rewrite take_app_length' by (by rewrite length_le_split).
    rewrite drop_app_length' by (by rewrite length_le_split).
    rewrite le_combine_split. change (Z.of_nat 4 * 8)%Z with 32%Z.
    by rewrite int_wrap_mod.
  - apply int_wrap_ok.
  - split; [intros <-; apply int_wrap_ok | apply int_wrap_id].
  - unfold store_int.
    rewrite (le_split_mod (z + 2 ^ 32) 4), (le_split_mod z 4).
    f_equal. change (Z.of_nat 4 * 8)%Z with 32%Z.
    rewrite <- Zplus_mod_idemp_r, Z_mod_same_full, Z.add_0_r. done.
Qed.

(** * Layout of the members *)

Lemma padding_lt off a : a ≠ 0 → padding off a < a.
Proof. intros Ha. unfold padding. by apply Nat.mod_upper_bound. Qed.

Lemma align_up_mod off a : a ≠ 0 → align_up off a `mod` a = 0.
Proof.
  intros Ha. unfold align_up, padding.
  pose proof (Nat.mod_upper_bound off a Ha) as Hlt.
  destruct (decide (off `mod` a = 0)) as [Hz | Hnz].
  - rewrite Hz, Nat.sub_0_r, Nat.Div0.mod_same, Nat.add_0_r. done.
  - rewrite (Nat.mod_small (a - off `mod` a)) by lia.
    rewrite (Nat.div_mod_eq off a) at 1.
    replace (a * (off `div` a) + off `mod` a + (a - off `mod` a))
      with ((off `div` a + 1) * a) by lia.
    apply Nat.Div0.mod_mul.
Qed.

Lemma length_field_offsets abi fs : ∀ off, length (field_offsets abi off fs) = length fs.
Proof. induction fs as [|f fs IH]; intros off; cbn; [done|]. by rewrite IH. Qed.

Lemma field_offsets_ge abi fs : ∀ off k o,
  field_offsets abi off fs !! k = Some o → off ≤ o.
Proof.
  induction fs as [|f fs IH]; intros off k o Ho; [done|].
  destruct k as [|k]; cbn in Ho.
  - injection Ho as <-. unfold align_up. lia.
  - apply IH in Ho. unfold align_up in Ho. lia.
Qed.

Lemma fields_end_ge abi fs : ∀ off, off ≤ fields_end abi off fs.
Proof.
  induction fs as [|f fs IH]; intros off; cbn [fields_end]; [done|].
  etransitivity; [|apply IH]. unfold align_up. lia.
Qed.

Lemma field_offsets_end abi fs : ∀ off k f o,
  fs !! k = Some f → field_offsets abi off fs !! k = Some o →
  o + sizeof abi (f_type f) ≤ fields_end abi off fs.
Proof.
  induction fs as [|f' fs IH]; intros off k f o Hf Ho; [done|].
  destruct k as [|k]; cbn in Hf, Ho; cbn [fields_end].
  - injection Hf as ->. injection Ho as <-. apply fields_end_ge.
  - by eapply IH.
Qed.

Lemma field_offsets_disjoint abi fs : ∀ off i j fi oi oj,
  i < j → fs !! i = Some fi →
  field_offsets abi off fs !! i = Some oi →
  field_offsets abi off fs !! j = Some oj →
  oi + sizeof abi (f_type fi) ≤ oj.
Proof.
  induction fs as [|f fs IH]; intros off i j fi oi oj Hij Hfi Hoi Hoj; [done|].
  destruct j as [|j]; [lia|]. destruct i as [|i]; cbn in Hfi, Hoi, Hoj.
  - injection Hfi as ->. injection Hoi as <-. by apply field_offsets_ge in Hoj.
  - eapply (IH _ i j); [lia | done..].
Qed.

Lemma struct_align_pos abi fs : struct_align abi fs ≠ 0.
Proof.
  unfold struct_align. induction fs as [|f fs IH]; cbn [foldr]; lia.
Qed.

(** X9. In every struct, under every ABI, the members do not overlap and none
    sticks out: a member ends before any later member starts, and the last
    byte of every member is inside the struct. *)
Theorem members_do_not_overlap (abi : ABI) (d : struct_decl) (i j : nat)
    (fi fj : field) (oi oj : nat) :
  i < j →
  s_fields d !! i = Some fi → s_fields d !! j = Some fj →
  field_offsets abi 0 (s_fields d) !! i = Some oi →
  field_offsets abi 0 (s_fields d) !! j = Some oj →
  oi + sizeof abi (f_type fi) ≤ oj
  ∧ oj + sizeof abi (f_type fj) ≤ sizeof_struct abi d.
Proof.
  intros Hij Hfi Hfj Hoi Hoj. split.
  - by apply (field_offsets_disjoint abi (s_fields d) 0 i j).
  - etransitivity; [by apply (field_offsets_end abi (s_fields d) 0 j)|].
    unfold sizeof_struct, align_up. lia.
Qed.

Lemma members_do_not_overlap_witness :
  160 + sizeof abi_padded Tint ≤ 176
  ∧ 176 + sizeof abi_padded Tsimd_float3 ≤ sizeof_struct abi_padded FragmentUniforms_decl.
Proof.
  apply (members_do_not_overlap abi_padded FragmentUniforms_decl 1 3
           (Field Tint "colorCount" None) (Field Tsimd_float3 "lightPosition" None));
    [lia | reflexivity..].
Defined.

Lemma field_offsets_aligned abi fs : ∀ off k f o,
  fs !! k = Some f → field_offsets abi off fs !! k = Some o →
  alignof abi (f_type f) ≠ 0 → o `mod` alignof abi (f_type f) = 0.
Proof.
  induction fs as [|f' fs IH]; intros off k f o Hf Ho Ha; [done|].
  destruct k as [|k]; cbn in Hf, Ho.
  - injection Hf as ->. injection Ho as <-. by apply align_up_mod.
  - by eapply IH.
Qed.

(** X10. Every member starts at a multiple of its alignment, the size of the
    struct is a multiple of the alignment of the struct, and the padding at
    the end is less than that alignment. *)
Theorem members_are_aligned (abi : ABI) (d : struct_decl) (k : nat)
    (f : field) (o : nat) :
  s_fields d !! k = Some f →
  field_offsets abi 0 (s_fields d) !! k = Some o →
  alignof abi (f_type f) ≠ 0 →
  o `mod` alignof abi (f_type f) = 0
  ∧ sizeof_struct abi d `mod` struct_align abi (s_fields d) = 0
  ∧ fields_end abi 0 (s_fields d) ≤ sizeof_struct abi d
      < fields_end abi 0 (s_fields d) + struct_align abi (s_fields d).
Proof.
  intros Hf Ho Ha. split_and!.
  - by apply (field_offsets_aligned abi (s_fields d) 0 k).
  - apply align_up_mod, struct_align_pos.
  - unfold sizeof_struct, align_up. lia.
  - unfold sizeof_struct, align_up.
    pose proof (padding_lt (fields_end abi 0 (s_fields d)) _
                  (struct_align_pos abi (s_fields d))). lia.
Qed.

Lemma members_are_aligned_witness :
  176 `mod` alignof abi_padded Tsimd_float3 = 0
  ∧ sizeof_struct abi_padded FragmentUniforms_decl
      `mod` struct_align abi_padded (s_fields FragmentUniforms_decl) = 0.
Proof.
  destruct (members_are_aligned abi_padded FragmentUniforms_decl 3
              (Field Tsimd_float3 "lightPosition" None) 176) as (H1 & H2 & _);
    [reflexivity | reflexivity | cbn; lia | by split].
Defined.

(** * Members in the stored bytes *)

Lemma store_fields_at abi fs : abi_ok abi → ∀ off (v : fields_value fs) rest k o bs,
  field_offsets abi off fs !! k = Some o →
  fields_bytes abi fs v !! k = Some bs →
  take (length bs) (drop (o - off) (store_fields abi off fs v ++ rest)) = bs.
Proof.
  intros Habi. induction fs as [|f fs IH]; intros off v rest k o bs Ho Hbs; [done|].
  destruct v as [x v]. cbn [store_fields fields_bytes field_offsets fst snd] in *.
  cbv zeta in *. unfold align_up in Ho.
  set (pad := padding off (alignof abi (f_type f))) in *.
  destruct k as [|k]; cbn in Ho, Hbs.
  - injection Ho as <-. injection Hbs as <-.
    replace (off + pad - off) with pad by lia. rewrite <- !app_assoc.
    rewrite drop_app_length' by (by rewrite length_replicate).
    by apply take_app_length'.
  - pose proof (field_offsets_ge _ _ _ _ _ Ho) as Hge.
    replace (o - off)
      with (pad + (sizeof abi (f_type f) + (o - (off + pad + sizeof abi (f_type f)))))
      by lia.
    rewrite <- !app_assoc.
    rewrite drop_app_add' by (by rewrite length_replicate).
    rewrite drop_app_add' by (by rewrite length_store).
    by apply (IH _ v rest k).
Qed.

Lemma fields_bytes_length abi fs : abi_ok abi → ∀ (v : fields_value fs) k bs,
  fields_bytes abi fs v !! k = Some bs →
  ∃ f, fs !! k = Some f ∧ length bs = sizeof abi (f_type f).
Proof.
  intros Habi. induction fs as [|f fs IH]; intros v k bs Hbs; [done|].
  destruct v as [x v]. destruct k as [|k]; cbn in Hbs.
  - injection Hbs as <-. exists f. split; [done|]. by apply length_store.
  - by apply (IH v k).
Qed.

(** X11. The stored bytes of a struct hold each member where [field_offsets]
    says: the bytes that start at the offset of a member are the
    representation of that member, for every struct and every ABI with room
    for the lanes. *)
Theorem member_bytes_at_offset (abi : ABI) (d : struct_decl)
    (v : fields_value (s_fields d)) (k o : nat) (bs : list byte) :
  abi_ok abi →
  field_offsets abi 0 (s_fields d) !! k = Some o →
  fields_bytes abi (s_fields d) v !! k = Some bs →
  take (length bs) (drop o (store_struct abi d v)) = bs
  ∧ o + length bs ≤ length (store_struct abi d v).
Proof.
  intros Habi Ho Hbs.
  assert (Hat : take (length bs) (drop o (store_struct abi d v)) = bs).
  { unfold store_struct. rewrite <- (Nat.sub_0_r o) at 1.
    by apply (store_fields_at abi (s_fields d) Habi 0 v _ k). }
  split; [done|].
  destruct (fields_bytes_length abi _ Habi v k bs Hbs) as (f & Hf & ->).
  rewrite length_store_struct by done.
  etransitivity; [by apply (field_offsets_end abi (s_fields d) 0 k)|].
  unfold sizeof_struct, align_up. lia.
Qed.

Lemma member_bytes_at_offset_witness :
  take 4 (drop 160 (store_struct abi_padded FragmentUniforms_decl
                      (FragmentUniforms_fields (sample_FragmentUniforms 7))))
  = store_int 7.
Proof.
  refine (proj1 (member_bytes_at_offset abi_padded FragmentUniforms_decl
                   (FragmentUniforms_fields (sample_FragmentUniforms 7)) 1 160
                   (store_int 7) abi_padded_ok _ _)); reflexivity.
Defined.

(** * Reading from too few or from arbitrary bytes *)

Lemma loads_exactly_float : loads_exactly 4 float_ok load_float.
Proof.
  intros bs. unfold load_float. split; intros Hlen.
  - rewrite decide_True by done. eexists. split; [done|].
    pose proof (le_combine_bound (take 4 bs)) as Hb.
    rewrite length_take, Nat.min_l in Hb by done. exact Hb.
  - by rewrite decide_False by lia.
Qed.

Lemma loads_exactly_int : loads_exactly 4 int_ok load_int.
Proof.
  intros bs. unfold load_int. split; intros Hlen.
  - rewrite decide_True by done. eexists. split; [done|]. apply int_wrap_ok.
  - by rewrite decide_False by lia.
Qed.

Lemma loads_exactly_vec {A} k (P : A → Prop) ld n :
  loads_exactly k P ld →
  loads_exactly (n * k) (λ v : vec A n, Forall P (vec_to_list v)) (load_vec ld n).
Proof.
  intros Hld. induction n as [|n IH]; intros bs.
  - split; [|cbn; lia]. intros _. exists [#]. by split.
  - destruct (Hld bs) as [Hok Hfail]. cbn [load_vec]. split; intros Hlen.
    + destruct Hok as (x & -> & Hx); [lia|]. cbn.
      destruct (IH (drop k bs)) as [Hok' _].
      destruct Hok' as (v & -> & Hv); [rewrite length_drop; lia|]. cbn.
      exists (x ::: v). rewrite drop_drop. split; [done|]. by constructor.
    + destruct (decide (k ≤ length bs)) as [Hk|Hk].
      * destruct Hok as (x & -> & Hx); [done|]. cbn.
        destruct (IH (drop k bs)) as [_ Hfail'].
        rewrite Hfail' by (rewrite length_drop; lia). done.
      * by rewrite Hfail by lia.
Qed.

Lemma loads_exactly_skip {A} k m (P : A → Prop) ld :
  loads_exactly k P ld →
  loads_exactly (k + m) P (λ bs, '(v, bs) ← ld bs; bs ← skip m bs; Some (v, bs)).
Proof.
  intros Hld bs. destruct (Hld bs) as [Hok Hfail]. unfold skip. split; intros Hlen.
  - destruct Hok as (x & -> & Hx); [lia|]. cbn.
    rewrite decide_True by (rewrite length_drop; lia). cbn.
    exists x. by rewrite drop_drop.
  - destruct (decide (k ≤ length bs)) as [Hk|Hk].
    + destruct Hok as (x & -> & Hx); [done|]. cbn.
      by rewrite decide_False by (rewrite length_drop; lia).
    + by rewrite Hfail by lia.
Qed.

Section LoadExactly.
Variable abi : ABI.
Hypothesis Habi : abi_ok abi.

Lemma loads_exactly_simd n :
  loads_exactly (simd_size abi n) (λ v : vec float n, Forall float_ok (vec_to_list v))
    (load_simd abi n).
Proof.
  replace (simd_size abi n) with (n * 4 + (simd_size abi n - 4 * n))
    by (specialize (Habi n); lia).
  apply loads_exactly_skip, loads_exactly_vec, loads_exactly_float.
Qed.

Lemma loads_exactly_load t : loads_exactly (sizeof abi t) (value_ok t) (load abi t).
Proof.
  induction t as [| |n| |t IH n]; cbn [sizeof value_ok load].
  - apply loads_exactly_float.
  - apply loads_exactly_int.
  - apply loads_exactly_simd.
  - intros bs. unfold load_float4x4.
    destruct (loads_exactly_vec _ _ _ 4 (loads_exactly_simd 4) bs) as [Hok Hfail].
    split; intros Hlen.
    + destruct Hok as (c & -> & Hc); [lia|]. cbn. eexists. split; [done|]. done.
    + by rewrite Hfail by lia.
  - by apply loads_exactly_vec.
Qed.

Lemma loads_exactly_fields fs : ∀ off,
  loads_exactly (fields_end abi off fs - off) (fields_ok fs) (load_fields abi off fs).
Proof.
  induction fs as [|f fs IH]; intros off bs; cbn [fields_end load_fields fields_ok].
  - rewrite Nat.sub_diag. split; [|lia]. intros _. by exists ().
  - cbv zeta. unfold align_up, skip.
    set (pad := padding off (alignof abi (f_type f))).
    set (sz := sizeof abi (f_type f)).
    pose proof (fields_end_ge abi fs (off + pad + sz)) as Hge.
    destruct (loads_exactly_load (f_type f) (drop pad bs)) as [Hok Hfail].
    destruct (IH (off + pad + sz) (drop sz (drop pad bs))) as [Hok' Hfail'].
    rewrite !length_drop in *. fold sz in Hok, Hfail.
    split; intros Hlen.
    + rewrite decide_True by lia. cbn.
      destruct Hok as (x & -> & Hx); [lia|]. cbn.
      destruct Hok' as (v & -> & Hv); [lia|]. cbn.
      exists (x, v). rewrite !drop_drop. split; [|done].
      do 3 f_equal. lia.
    + destruct (decide (pad ≤ length bs)) as [Hp|Hp]; [|done]. cbn.
      destruct (decide (sz ≤ length bs - pad)) as [Hs|Hs].
      * destruct Hok as (x & -> & Hx); [done|]. cbn.
        by rewrite Hfail' by lia.
      * by rewrite Hfail by lia.
Qed.

Lemma loads_exactly_struct d :
  loads_exactly (sizeof_struct abi d) (fields_ok (s_fields d)) (load_struct abi d).
Proof.
  unfold sizeof_struct, align_up, load_struct. fold (tail_padding abi d).
  rewrite <- (Nat.sub_0_r (fields_end abi 0 (s_fields d))).
  apply loads_exactly_skip, loads_exactly_fields.
Qed.
End LoadExactly.

(** X12. The structs have no invalid byte patterns: any [sizeof_struct]
    bytes decode to an instance whose scalars are all in the range of their
    32-bit types, the bytes that follow are left untouched, and the instance
    stored again reads back as itself. *)
Theorem load_struct_any_bytes (abi : ABI) (d : struct_decl) (bs : list byte) :
  abi_ok abi → sizeof_struct abi d ≤ length bs →
  ∃ v, load_struct abi d bs = Some (v, drop (sizeof_struct abi d) bs)
       ∧ fields_ok (s_fields d) v
       ∧ ∀ rest, load_struct abi d (store_struct abi d v ++ rest) = Some (v, rest).
Proof.
  intros Habi Hlen.
  destruct (loads_exactly_struct abi Habi d bs) as [Hok _].
  destruct (Hok Hlen) as (v & Hv & Hvok). exists v. split_and!; [done..|].
  intros rest. by apply load_struct_store_struct.
Qed.

Lemma load_struct_any_bytes_witness :
  ∃ v, load_struct abi_padded FragmentUniforms_decl (replicate 300 Byte.xff)
       = Some (v, replicate 92 Byte.xff)
       ∧ fields_ok (s_fields FragmentUniforms_decl) v.
Proof.
  destruct (load_struct_any_bytes abi_padded FragmentUniforms_decl
              (replicate 300 Byte.xff) abi_padded_ok) as (v & Hv & Hok & _).
  - vm_compute. lia.
  - exists v. by split.
Defined.
